(** * The Log panel of studio-base: topic selection, message filtering,
      seen-name accumulation, cell rendering, autoscroll, and the
      Timestamp component.

    Sources embedded here:
      - packages/studio-base/src/panels/Log/index.tsx (the Log panel, and
        the pose settings editor that follows it in the same file)
      - packages/studio-base/src/components/Timestamp.tsx

    JavaScript numbers that hold integral quantities (severity levels,
    seconds, scroll offsets) are modelled as [Z]; [undefined] as [None]. *)

From Stdlib Require Import ZArith String List.
From stdpp Require Import gmap strings list fin_maps.

Local Open Scope string_scope.
Local Open Scope list_scope.
Local Open Scope Z_scope.

(** ** Data model *)

(** [Topic] of the data source: [{ name, datatype }]. *)
Module Topic.
Record t := mk { name : string; datatype : string }.
End Topic.

(** The payload of a log message event, as far as the panel reads it:
    [message.level], [message.name] (may be undefined) and the text. *)
Module LogMessage.
Record t := mk { level : Z; name : option string; message : string }.
End LogMessage.

(** [LogMessageEvent]: [{ topic, message }]. *)
Module LogMessageEvent.
Record t := mk { topic : string; message : LogMessage.t }.
End LogMessageEvent.

(** The second argument of [filterMessages]. *)
Module Filter.
Record t := mk { minLogLevel : Z; searchTerms : list string }.
End Filter.

(** [type Config] of the panel. *)
Module Config.
Record t := mk {
  searchTerms : list string;
  minLogLevel : Z;
  topicToRender : option string
}.
End Config.

(** [Time] of @foxglove/rostime. *)
Module Time.
Record t := mk { sec : Z; nsec : Z }.
End Time.

#[global] Instance Topic_eq_dec : EqDecision Topic.t.
Proof. solve_decision. Defined.
#[global] Instance LogMessage_eq_dec : EqDecision LogMessage.t.
Proof. solve_decision. Defined.
#[global] Instance LogMessageEvent_eq_dec : EqDecision LogMessageEvent.t.
Proof. solve_decision. Defined.

(** ** JavaScript primitives used by the panel *)

(** [a ?? b] with a non-nullish right operand. *)
Definition nullish {A} (a : option A) (b : A) : A :=
  match a with Some x => x | None => b end.

(** [a ?? b] where the right operand may itself be undefined. *)
Definition nullish_opt {A} (a b : option A) : option A :=
  match a with Some x => Some x | None => b end.

(** [arr.includes(x)] on an array of strings. *)
Definition Array_includes (arr : list string) (x : string) : bool :=
  bool_decide (x ∈ arr).

(** [s.includes(term)]: [term] occurs in [s] at some offset. *)
Fixpoint String_includes (s term : string) : bool :=
  String.prefix term s ||
  match s with
  | EmptyString => false
  | String _ s' => String_includes s' term
  end.

(** What "is a substring of" means, stated without the search loop. *)
Definition is_substring (term s : string) : Prop :=
  ∃ pre post : string, s = pre +:+ term +:+ post.

(** ** Topic selection (index.tsx, lines 44-84) *)

Definition SUPPORTED_DATATYPES : list string :=
  [ "rosgraph_msgs/Log";
    "rcl_interfaces/msg/Log";
    "ros.rosgraph_msgs.Log";
    "ros.rcl_interfaces.Log";
    "foxglove.Log" ].

(** [topics.filter((topic) => allowed.includes(topic.datatype))]; the
    panel instantiates [allowed] with [SUPPORTED_DATATYPES]. *)
Definition availableTopics (allowed : list string) (topics : list Topic.t)
  : list Topic.t :=
  List.filter (λ topic, Array_includes allowed (Topic.datatype topic)) topics.

(** [availableTopics[0]?.name] *)
Definition defaultTopicToRender (allowed : list string) (topics : list Topic.t)
  : option string :=
  Topic.name <$> head (availableTopics allowed topics).

(** [config.topicToRender ?? defaultTopicToRender ?? "/rosout"] *)
Definition topicToRender (allowed : list string) (topics : list Topic.t)
  (explicitChoice : option string) : string :=
  nullish (nullish_opt explicitChoice (defaultTopicToRender allowed topics))
          "/rosout".

(** The value computed by the panel itself. *)
Definition LogPanel_topicToRender (topics : list Topic.t) (config : Config.t)
  : string :=
  topicToRender SUPPORTED_DATATYPES topics (Config.topicToRender config).

(** [datatypeByTopic]: a [Map] filled by a loop over [topics]; a later
    topic of the same name overwrites an earlier one. *)
Definition datatypeByTopic (topics : list Topic.t) : gmap string string :=
  foldl (λ out topic, <[Topic.name topic := Topic.datatype topic]> out)
        ∅ topics.

(** ** Message filter *)

(** Modelled from the spec: [filterMessages] is imported from
    [./filterMessages], which is not among the sources. The per-record
    predicate follows section 4.2: the level is at least [minLogLevel],
    and either there are no search terms or some term is found within the
    record's message or within its name (direct substring test). *)
Definition termFound (ev : LogMessageEvent.t) (term : string) : bool :=
  String_includes (LogMessage.message (LogMessageEvent.message ev)) term ||
  match LogMessage.name (LogMessageEvent.message ev) with
  | Some n => String_includes n term
  | None => false
  end.

(** Modelled from the spec: the record predicate of [filterMessages]
    (section 4.2), see [termFound]. *)
Definition passesFilter (f : Filter.t) (ev : LogMessageEvent.t) : bool :=
  (Filter.minLogLevel f <=? LogMessage.level (LogMessageEvent.message ev)) &&
  match Filter.searchTerms f with
  | [] => true
  | terms => existsb (termFound ev) terms
  end.

(** Modelled from the spec: [filterMessages(events, filter)] of the missing
    module [./filterMessages]; output order is input order. *)
Definition filterMessages (events : list LogMessageEvent.t) (f : Filter.t)
  : list LogMessageEvent.t :=
  List.filter (passesFilter f) events.

(** [filteredMessages] as the panel computes it (lines 108-111). *)
Definition filteredMessages (msgEvents : list LogMessageEvent.t)
  (config : Config.t) : list LogMessageEvent.t :=
  filterMessages msgEvents
    (Filter.mk (Config.minLogLevel config) (Config.searchTerms config)).

(** The level/search predicate in the words of section 4.2, as a
    proposition: it is what [passesFilter] is compared with. *)
Definition satisfiesPredicate (f : Filter.t) (r : LogMessageEvent.t) : Prop :=
  Filter.minLogLevel f ≤ LogMessage.level (LogMessageEvent.message r) ∧
  (Filter.searchTerms f = [] ∨
   ∃ term, term ∈ Filter.searchTerms f ∧
     (is_substring term (LogMessage.message (LogMessageEvent.message r)) ∨
      ∃ n, LogMessage.name (LogMessageEvent.message r) = Some n ∧
           is_substring term n)).

(** The level test alone. *)
Definition levelAtLeast (minLogLevel : Z) (r : LogMessageEvent.t) : bool :=
  minLogLevel <=? LogMessage.level (LogMessageEvent.message r).

(** The two records of the scenarios in section 8. *)
Definition recordA : LogMessageEvent.t :=
  LogMessageEvent.mk "/rosout" (LogMessage.mk 1 (Some "nodeA") "hello").
Definition recordB : LogMessageEvent.t :=
  LogMessageEvent.mk "/rosout" (LogMessage.mk 3 (Some "nodeB") "fail").

(** ** Seen node names (index.tsx, lines 86-104) *)

(** What the panel gets on one render: the topic catalogue, its config,
    and the data source's history per topic ([useMessagesByTopic]). *)
Record RenderInput := {
  topics : list Topic.t;
  config : Config.t;
  messagesByTopic : gmap string (list LogMessageEvent.t)
}.

(** [const { [topicToRender]: msgEvents = [] } = useMessagesByTopic(...)] *)
Definition msgEvents (r : RenderInput) : list LogMessageEvent.t :=
  default [] (messagesByTopic r !! LogPanel_topicToRender (topics r) (config r)).

(** The body of the [seenNodeNames] memo: every defined [message.name] is
    added to the one set held by [seenNodeNamesCache], and that same set is
    returned. *)
Definition seenNodeNames (cache : gset string)
  (events : list LogMessageEvent.t) : gset string :=
  foldl (λ current msgEvent,
           match LogMessage.name (LogMessageEvent.message msgEvent) with
           | Some name => {[ name ]} ∪ current
           | None => current
           end)
        cache events.

(** One render of the panel, as far as [seenNodeNamesCache] is concerned. *)
Definition renderSeenNodeNames (cache : gset string) (r : RenderInput)
  : gset string :=
  seenNodeNames cache (msgEvents r).

(** A panel instance starts with [new Set()] and lives through renders. *)
Definition seenAfterRenders (rs : list RenderInput) : gset string :=
  foldl renderSeenNodeNames ∅ rs.

(** Two log topics with one message each, and two successive renders: the
    first with no explicit choice (the first log topic is shown), the second
    after the user picked the other topic. *)
Definition twoLogTopics : list Topic.t :=
  [Topic.mk "/a" "rosgraph_msgs/Log"; Topic.mk "/b" "rosgraph_msgs/Log"].

Definition twoTopicHistory : gmap string (list LogMessageEvent.t) :=
  {[ "/a" := [LogMessageEvent.mk "/a" (LogMessage.mk 2 (Some "nodeA") "up")];
     "/b" := [LogMessageEvent.mk "/b" (LogMessage.mk 2 (Some "nodeB") "up")] ]}.

Definition renderOnA : RenderInput :=
  {| topics := twoLogTopics;
     config := Config.mk [] 1 None;
     messagesByTopic := twoTopicHistory |}.

Definition renderOnB : RenderInput :=
  {| topics := twoLogTopics;
     config := Config.mk [] 1 (Some "/b");
     messagesByTopic := twoTopicHistory |}.

(** ** Completions: a call either returns or throws *)

Inductive Completion (A : Type) :=
| Normal (a : A)
| Throw (error : string).
Arguments Normal {A} a.
Arguments Throw {A} error.

(** ** Cell rendering (index.tsx, lines 188-207) *)

Section RenderCell.
(** [normalizedLogMessage] comes from [./conversion], which is not among
    the sources: it is a parameter here, and it is allowed to throw. *)
Variable NormalizedLogMessage : Type.
Variable normalizedLogMessage :
  string → LogMessage.t → Completion NormalizedLogMessage.

(** [<LogMessage value=... timestampFormat=... timeZone=... />] *)
Record LogMessageElement := {
  value : NormalizedLogMessage;
  timestampFormat : string;
  timeZone : option string
}.

(** [!datatype] for a string that may be undefined. *)
Definition falsy (datatype : option string) : bool :=
  match datatype with
  | None => true
  | Some s => bool_decide (s = "")
  end.

Definition onRenderCell (topics : list Topic.t) (timeFormat : string)
  (tz : option string) (item : option LogMessageEvent.t)
  : Completion (option LogMessageElement) :=
  match item with
  | None => Normal None
  | Some item =>
    let datatype := datatypeByTopic topics !! LogMessageEvent.topic item in
    if falsy datatype then Normal None
    else
      match normalizedLogMessage (default "" datatype)
                                 (LogMessageEvent.message item) with
      | Throw e => Throw e
      | Normal normalizedLog =>
        Normal (Some {| value := normalizedLog;
                        timestampFormat := timeFormat;
                        timeZone := tz |})
      end
  end.
End RenderCell.

(** ** Autoscroll (index.tsx, lines 125-162, 181-187, 210-218) *)

(** The scroll geometry of the viewport element. *)
Record Div := { scrollTop : Z; scrollHeight : Z; clientHeight : Z }.

(** The mutable cells of one panel instance. Handlers run to completion
    one after the other, and a state update is visible to the next one. *)
Record Panel := {
  hasUserScrolled : bool;   (* useState(false) *)
  scrollByUpdate : bool;    (* useRef<boolean>(false).current *)
  divRef : option Div       (* useRef<HTMLDivElement>(null).current *)
}.

(** What a handler does, in program order. *)
Inductive Effect :=
| SetHasUserScrolled (b : bool)
| SetScrollByUpdate (b : bool)
| CallScrollToBottom
| SetScrollTop (v : Z).

#[global] Instance Effect_eq_dec : EqDecision Effect.
Proof. solve_decision. Defined.

(** A handler maps the panel to a completion carrying the new panel and
    the effects performed. *)
Definition Handler (A : Type) : Type :=
  Panel → Completion (A * Panel * list Effect).

#[global] Instance Handler_ret : MRet Handler :=
  λ A a s, Normal (a, s, []).

#[global] Instance Handler_bind : MBind Handler :=
  λ A B k m s,
    match m s with
    | Throw e => Throw e
    | Normal (a, s1, log1) =>
      match k a s1 with
      | Throw e => Throw e
      | Normal (b, s2, log2) => Normal (b, s2, log1 ++ log2)
      end
    end.

Definition tell (e : Effect) : Handler unit :=
  λ s, Normal (tt, s, [e]).

Definition get {A} (field : Panel → A) : Handler A :=
  λ s, Normal (field s, s, []).

(** [setHasUserScrolled(b)] *)
Definition setHasUserScrolled (b : bool) : Handler unit :=
  λ s, Normal (tt, {| hasUserScrolled := b;
                      scrollByUpdate := scrollByUpdate s;
                      divRef := divRef s |}, [SetHasUserScrolled b]).

(** [scrollByUpdate.current = b] *)
Definition setScrollByUpdate (b : bool) : Handler unit :=
  λ s, Normal (tt, {| hasUserScrolled := hasUserScrolled s;
                      scrollByUpdate := b;
                      divRef := divRef s |}, [SetScrollByUpdate b]).

(** [div.scrollHeight]: a property read, a TypeError on null. *)
Definition div_scrollHeight : Handler Z :=
  λ s, match divRef s with
       | Some div => Normal (scrollHeight div, s, [])
       | None => Throw "TypeError"
       end.

(** The offset the browser keeps for an assignment [div.scrollTop = v]. *)
Definition clampScrollTop (div : Div) (v : Z) : Z :=
  Z.max 0 (Z.min v (scrollHeight div - clientHeight div)).

(** [div.scrollTop = v]: a property write, a TypeError on null. *)
Definition div_setScrollTop (v : Z) : Handler unit :=
  λ s, match divRef s with
       | Some div =>
         Normal (tt, {| hasUserScrolled := hasUserScrolled s;
                        scrollByUpdate := scrollByUpdate s;
                        divRef := Some {| scrollTop := clampScrollTop div v;
                                          scrollHeight := scrollHeight div;
                                          clientHeight := clientHeight div |} |},
                 [SetScrollTop v])
       | None => Throw "TypeError"
       end.

Definition scrollToBottom : Handler unit :=
  _ ← tell CallScrollToBottom;
  div ← get divRef;
  match div with
  | None => mret tt
  | Some _ => h ← div_scrollHeight; div_setScrollTop h
  end.

Definition scrollToBottomAction : Handler unit :=
  _ ← setHasUserScrolled false;
  _ ← setScrollByUpdate true;
  scrollToBottom.

(** The scroll listener installed by the layout effect. *)
Definition listener : Handler unit :=
  byUpdate ← get scrollByUpdate;
  _ ← (if negb byUpdate then setHasUserScrolled true else mret tt);
  setScrollByUpdate false.

Definition onPagesUpdated : Handler unit :=
  scrolled ← get hasUserScrolled;
  if negb scrolled
  then _ ← setScrollByUpdate true; scrollToBottom
  else mret tt.

(** The events the controller reacts to. *)
Inductive Event :=
| PagesUpdated          (* the list rendered new pages *)
| Scroll                (* a scroll event on the viewport *)
| ClickScrollToBottom.  (* the "Scroll to bottom" button *)

#[global] Instance Event_eq_dec : EqDecision Event.
Proof. solve_decision. Defined.

Definition handle (e : Event) : Handler unit :=
  match e with
  | PagesUpdated => onPagesUpdated
  | Scroll => listener
  | ClickScrollToBottom => scrollToBottomAction
  end.

Fixpoint run (es : list Event) : Handler unit :=
  match es with
  | [] => mret tt
  | e :: es' => _ ← handle e; run es'
  end.

(** [{hasUserScrolled && <IconButton title="Scroll to bottom" .../>}]: the
    button, if rendered, with the event its [onClick] raises. *)
Definition scrollToBottomButton (s : Panel) : option Event :=
  if hasUserScrolled s then Some ClickScrollToBottom else None.

Inductive ControllerState := Following | Paused.

Definition controllerState (s : Panel) : ControllerState :=
  if hasUserScrolled s then Paused else Following.

(** A freshly mounted panel. *)
Definition mountPanel (div : option Div) : Panel :=
  {| hasUserScrolled := false; scrollByUpdate := false; divRef := div |}.

(** Number of [scrollToBottom()] calls in a log. *)
Definition scrollCalls (log : list Effect) : nat :=
  length (filter (λ e, e = CallScrollToBottom) log).

(** Number of assignments to [div.scrollTop] in a log. *)
Definition isScrollWrite (e : Effect) : bool :=
  match e with SetScrollTop _ => true | _ => false end.

Definition scrollWrites (log : list Effect) : nat :=
  length (List.filter isScrollWrite log).

(** A viewport with content taller than the element, scrolled to the top. *)
Definition tallViewport : Div :=
  {| scrollTop := 0; scrollHeight := 100; clientHeight := 40 |}.

(** [new content arrives, and optionally the scroll event it causes]. *)
Definition arrival (scrollEventDelivered : bool) : list Event :=
  if scrollEventDelivered then [PagesUpdated; Scroll] else [PagesUpdated].

(** ** Timestamp component (Timestamp.tsx) *)

Definition DURATION_20_YEARS_SEC : Z := 20 * 365 * 24 * 60 * 60.

Definition isAbsoluteTime (time : Time.t) : bool :=
  DURATION_20_YEARS_SEC <? Time.sec time.

Record TimestampProps := {
  disableDate : option bool;
  horizontal : option bool;
  time : Time.t;
  timezone : option string
}.

(** The texts and the icon of the rendered element. *)
Inductive TimestampElement :=
| RawTime (rawTimeStr : string)
| DateAndTime (isHorizontal : bool) (date : option string)
              (chevron : bool) (currentTimeStr : string).

Section TimestampComponent.
(** [formatTime] of [useAppTimeFormat], [formatTimeRaw] of [util/time]
    and [formatDate] of [util/formatTime] are not among the sources. *)
Variable formatTime : Time.t → string.
Variable formatTimeRaw : Time.t → string.
Variable formatDate : Time.t → option string → string.

Definition Timestamp (props : TimestampProps) : TimestampElement :=
  let disableDate := nullish (disableDate props) false in
  let horizontal := nullish (horizontal props) false in
  let currentTimeStr := formatTime (time props) in
  let rawTimeStr := formatTimeRaw (time props) in
  let date := formatDate (time props) (timezone props) in
  if negb (isAbsoluteTime (time props)) then RawTime rawTimeStr
  else DateAndTime horizontal
                   (if negb disableDate then Some date else None)
                   (negb disableDate && horizontal)
                   currentTimeStr.
End TimestampComponent.

(** ** Config updates (index.tsx, lines 57-62, 115-123, 225-230) *)

(** The config handed to [saveConfig] by [onFilterChange]:
    [{ ...config, minLogLevel: filter.minLogLevel,
       searchTerms: filter.searchTerms }]. *)
Definition onFilterChange (config : Config.t) (filter : Filter.t) : Config.t :=
  {| Config.searchTerms := Filter.searchTerms filter;
     Config.minLogLevel := Filter.minLogLevel filter;
     Config.topicToRender := Config.topicToRender config |}.

(** The config handed to [saveConfig] by the topic menu's [onChange]:
    [{ ...config, topicToRender: newTopicToRender }]. *)
Definition onTopicChange (config : Config.t) (newTopicToRender : string)
  : Config.t :=
  {| Config.searchTerms := Config.searchTerms config;
     Config.minLogLevel := Config.minLogLevel config;
     Config.topicToRender := Some newTopicToRender |}.

(** [defaultConfig: { searchTerms: [], minLogLevel: 1 }] *)
Definition defaultConfig : Config.t :=
  {| Config.searchTerms := [];
     Config.minLogLevel := 1;
     Config.topicToRender := None |}.

(** The two user actions that save a config, and a series of them applied
    in order, each to the config saved by the one before. *)
Inductive ConfigAction :=
| FilterChanged (filter : Filter.t)
| TopicChanged (newTopicToRender : string).

Definition saveConfig (config : Config.t) (a : ConfigAction) : Config.t :=
  match a with
  | FilterChanged filter => onFilterChange config filter
  | TopicChanged newTopicToRender => onTopicChange config newTopicToRender
  end.

Definition saveConfigs (config : Config.t) (actions : list ConfigAction)
  : Config.t :=
  foldl saveConfig config actions.

(** The last topic chosen, and the last filter set, in a series. *)
Definition lastTopic (actions : list ConfigAction) : option string :=
  last (omap (λ a, match a with TopicChanged t => Some t | _ => None end)
             actions).

Definition lastFilter (actions : list ConfigAction) : option Filter.t :=
  last (omap (λ a, match a with FilterChanged f => Some f | _ => None end)
             actions).

(** The filter a config stands for (lines 54 and 109). *)
Definition filterOf (config : Config.t) : Filter.t :=
  Filter.mk (Config.minLogLevel config) (Config.searchTerms config).

(** The defined names of a batch, as a set. *)
Definition nodeNamesOf (events : list LogMessageEvent.t) : gset string :=
  list_to_set
    (omap (λ ev, LogMessage.name (LogMessageEvent.message ev)) events).

(** The part of the viewport that no handler assigns. *)
Definition geometry (div : Div) : Z * Z :=
  (scrollHeight div, clientHeight div).

(** The viewport after [div.scrollTop = div.scrollHeight]. *)
Definition atBottom (div : Div) : Div :=
  {| scrollTop := clampScrollTop div (scrollHeight div);
     scrollHeight := scrollHeight div;
     clientHeight := clientHeight div |}.

(** The assignment [scrollToBottom] makes to the viewport, if there is
    one. *)
Definition bottomWrite (div : option Div) : list Effect :=
  match div with
  | Some d => [SetScrollTop (scrollHeight d)]
  | None => []
  end.

(** Events whose handler may call [scrollToBottom]. *)
Definition mayScroll (e : Event) : bool :=
  match e with Scroll => false | _ => true end.

(** ** Pose settings editor (second module of index.tsx, lines 253-342) *)

Section PoseSettingsEditor.
(** JavaScript numbers are kept abstract here: [literal] reads a numeric
    literal of the source, [parseFloat] is the built-in. *)
Variable number : Type.
Variable literal : string → number.
Variable parseFloat : string → number.
(** [Color], from types/Messages. *)
Variable Color : Type.

(** [PoseSettings["size"]] *)
Record PoseSize := {
  shaftLength : option number;
  headLength : option number;
  headWidth : option number;
  shaftWidth : option number
}.

(** [type PoseSettings] *)
Record PoseSettings := {
  overrideColor : option Color;
  alpha : option number;
  size : option PoseSize
}.

(** [{ ...settings.size }]: spreading [undefined] gives the empty object. *)
Definition spreadSize (s : option PoseSize) : PoseSize :=
  match s with
  | Some sz => sz
  | None => {| shaftLength := None; headLength := None;
               headWidth := None; shaftWidth := None |}
  end.

(** [settings.size?.field] *)
Definition sizeField (field : PoseSize → option number)
  (settings : PoseSettings) : option number :=
  match size settings with
  | Some sz => field sz
  | None => None
  end.

(** The four values shown in the inputs. *)
Definition currentLength (settings : PoseSettings) : number :=
  nullish (sizeField shaftLength settings) (literal "1").
Definition currentShaftWidth (settings : PoseSettings) : number :=
  nullish (sizeField shaftWidth settings) (literal "0.05").
Definition currentHeadWidth (settings : PoseSettings) : number :=
  nullish (sizeField headWidth settings) (literal "0.2").
Definition currentHeadLength (settings : PoseSettings) : number :=
  nullish (sizeField headLength settings) (literal "0.3").

(** The four [onChange] handlers: the settings handed to
    [onSettingsChange] for the text [value] of the input. *)
Definition onShaftLengthChange (settings : PoseSettings) (value : string)
  : PoseSettings :=
  let sz := spreadSize (size settings) in
  {| overrideColor := overrideColor settings;
     alpha := alpha settings;
     size := Some {| shaftLength := Some (parseFloat value);
                     headLength := headLength sz;
                     headWidth := headWidth sz;
                     shaftWidth := shaftWidth sz |} |}.

Definition onShaftWidthChange (settings : PoseSettings) (value : string)
  : PoseSettings :=
  let sz := spreadSize (size settings) in
  {| overrideColor := overrideColor settings;
     alpha := alpha settings;
     size := Some {| shaftLength := shaftLength sz;
                     headLength := headLength sz;
                     headWidth := headWidth sz;
                     shaftWidth := Some (parseFloat value) |} |}.

Definition onHeadWidthChange (settings : PoseSettings) (value : string)
  : PoseSettings :=
  let sz := spreadSize (size settings) in
  {| overrideColor := overrideColor settings;
     alpha := alpha settings;
     size := Some {| shaftLength := shaftLength sz;
                     headLength := headLength sz;
                     headWidth := Some (parseFloat value);
                     shaftWidth := shaftWidth sz |} |}.

Definition onHeadLengthChange (settings : PoseSettings) (value : string)
  : PoseSettings :=
  let sz := spreadSize (size settings) in
  {| overrideColor := overrideColor settings;
     alpha := alpha settings;
     size := Some {| shaftLength := shaftLength sz;
                     headLength := Some (parseFloat value);
                     headWidth := headWidth sz;
                     shaftWidth := shaftWidth sz |} |}.

(** The fields of the editor; [edit] dispatches to the handler above and
    [shown] to the value displayed. *)
Inductive SizeInput := ShaftLength | ShaftWidth | HeadWidth | HeadLength.

Definition edit (input : SizeInput) : PoseSettings → string → PoseSettings :=
  match input with
  | ShaftLength => onShaftLengthChange
  | ShaftWidth => onShaftWidthChange
  | HeadWidth => onHeadWidthChange
  | HeadLength => onHeadLengthChange
  end.

Definition shown (input : SizeInput) : PoseSettings → number :=
  match input with
  | ShaftLength => currentLength
  | ShaftWidth => currentShaftWidth
  | HeadWidth => currentHeadWidth
  | HeadLength => currentHeadLength
  end.
End PoseSettingsEditor.

(** * Properties *)

(** ** Strings *)

Lemma append_nil (s : string) : "" +:+ s = s.
Proof. reflexivity. Qed.

Lemma append_cons (c : Ascii.ascii) (s1 s2 : string) :
  String c s1 +:+ s2 = String c (s1 +:+ s2).
Proof. reflexivity. Qed.

Lemma prefix_nil (s : string) : String.prefix "" s = true.
Proof. by destruct s. Qed.

Lemma prefix_cons (c d : Ascii.ascii) (term s : string) :
  String.prefix (String c term) (String d s) =
  if Ascii.ascii_dec c d then String.prefix term s else false.
Proof. reflexivity. Qed.

Lemma prefix_spec (term s : string) :
  String.prefix term s = true ↔ ∃ post, s = term +:+ post.
Proof.
  revert s. induction term as [|c term IH]; intros s.
  - rewrite prefix_nil. split; [intros _; by exists s | done].
  - destruct s as [|d s].
    + split; [done | intros [post Hpost]; discriminate].
    + rewrite prefix_cons. setoid_rewrite append_cons.
      destruct (Ascii.ascii_dec c d) as [->|Hne].
      * rewrite IH. split; intros [post Hpost]; exists post; congruence.
      * split; [done | intros [post Hpost]; congruence].
Qed.

Lemma String_includes_nil (term : string) :
  String_includes "" term = String.prefix term "".
Proof. unfold String_includes. apply orb_false_r. Qed.

Lemma String_includes_cons (c : Ascii.ascii) (s term : string) :
  String_includes (String c s) term =
  String.prefix term (String c s) || String_includes s term.
Proof. reflexivity. Qed.

Lemma String_includes_spec (s term : string) :
  String_includes s term = true ↔ is_substring term s.
Proof.
  unfold is_substring. induction s as [|c s IH].
  - rewrite String_includes_nil, prefix_spec. split.
    + intros [post Hpost]. by exists "", post.
    + intros [pre [post Hpost]]. destruct pre; [by exists post | discriminate].
  - rewrite String_includes_cons, orb_true_iff, prefix_spec, IH. split.
    + intros [[post Hpost] | [pre [post Hpost]]].
      * by exists "", post.
      * exists (String c pre), post. by rewrite append_cons, Hpost.
    + intros [pre [post Hpost]]. destruct pre as [|d pre].
      * left. by exists post.
      * right. exists pre, post. rewrite append_cons in Hpost. congruence.
Qed.

(** ** Message filter *)

Lemma termFound_spec (ev : LogMessageEvent.t) (term : string) :
  termFound ev term = true ↔
  is_substring term (LogMessage.message (LogMessageEvent.message ev)) ∨
  ∃ n, LogMessage.name (LogMessageEvent.message ev) = Some n ∧
       is_substring term n.
Proof.
  unfold termFound. rewrite orb_true_iff, String_includes_spec.
  destruct (LogMessage.name (LogMessageEvent.message ev)) as [n|].
  - rewrite String_includes_spec. split; intros [H|H]; auto.
    + right. by exists n.
    + destruct H as [n' [[= <-] H]]. by right.
  - split; intros [H|H]; auto; [done | by destruct H as [n [? _]]].
Qed.

Lemma passesFilter_spec (f : Filter.t) (ev : LogMessageEvent.t) :
  passesFilter f ev = true ↔ satisfiesPredicate f ev.
Proof.
  unfold passesFilter, satisfiesPredicate.
  rewrite andb_true_iff, Z.leb_le.
  destruct (Filter.searchTerms f) as [|t ts] eqn:Hterms.
  - split; intros [Hlevel _]; auto.
  - rewrite existsb_exists. split; intros [Hlevel Hsearch]; split; auto.
    + right. destruct Hsearch as [term [Hin Hfound]]. exists term.
      by rewrite list_elem_of_In, <- termFound_spec.
    + destruct Hsearch as [|[term [Hin Hfound]]]; [done|].
      exists term. by rewrite <- list_elem_of_In, termFound_spec.
Qed.

Lemma elem_of_filterMessages (R : list LogMessageEvent.t) (F : Filter.t) r :
  r ∈ filterMessages R F ↔ r ∈ R ∧ satisfiesPredicate F r.
Proof.
  unfold filterMessages.
  by rewrite !list_elem_of_In, filter_In, passesFilter_spec.
Qed.

Lemma filterMessages_sublist (R : list LogMessageEvent.t) (F : Filter.t) :
  sublist (filterMessages R F) R.
Proof.
  unfold filterMessages. induction R as [|r R IH]; simpl.
  - constructor.
  - destruct (passesFilter F r); by constructor.
Qed.

Lemma filterMessages_no_terms (R : list LogMessageEvent.t) (F : Filter.t) :
  Filter.searchTerms F = [] →
  filterMessages R F = List.filter (levelAtLeast (Filter.minLogLevel F)) R.
Proof.
  intros Hterms. unfold filterMessages. apply filter_ext. intros r.
  unfold passesFilter, levelAtLeast. rewrite Hterms. apply andb_true_r.
Qed.

(** C1: a record of [R] is in [filterMessages R F] exactly when its level
    is at least [minLogLevel] and either there are no search terms or some
    term is a substring of its message or of its name; with no search
    terms the output is exactly the records of [R] at or above the level. *)
Theorem filterMessages_characterisation
  (R : list LogMessageEvent.t) (F : Filter.t) :
  (∀ r, r ∈ filterMessages R F ↔ r ∈ R ∧ satisfiesPredicate F r) ∧
  (Filter.searchTerms F = [] →
   filterMessages R F = List.filter (levelAtLeast (Filter.minLogLevel F)) R).
Proof.
  split.
  - intros r. apply elem_of_filterMessages.
  - apply filterMessages_no_terms.
Qed.

(** The scenarios of section 8: a level floor of 2 with no terms keeps the
    second record only, and so does the single term "fail" with floor 0. *)
Lemma filterMessages_characterisation_witness :
  filterMessages [recordA; recordB] (Filter.mk 2 []) = [recordB] ∧
  recordB ∈ filterMessages [recordA; recordB] (Filter.mk 0 ["fail"]).
Proof.
  split.
  - rewrite (proj2 (filterMessages_characterisation
                      [recordA; recordB] (Filter.mk 2 []))); reflexivity.
  - apply (proj1 (filterMessages_characterisation
                    [recordA; recordB] (Filter.mk 0 ["fail"]))).
    split.
    + apply list_elem_of_In. simpl. auto.
    + split; [simpl; lia |].
      right. exists "fail". split; [apply list_elem_of_In; simpl; auto |].
      left. by exists "", "".
Defined.

(** C2: [filterMessages R F] is an order-preserving subsequence of [R];
    every record in it satisfies the level/search predicate and every record
    of [R] missing from it fails the predicate. *)
Theorem filterMessages_stable (R : list LogMessageEvent.t) (F : Filter.t) :
  sublist (filterMessages R F) R ∧
  (∀ r, r ∈ filterMessages R F → satisfiesPredicate F r) ∧
  (∀ r, r ∈ R → r ∉ filterMessages R F → ¬ satisfiesPredicate F r).
Proof.
  split; [apply filterMessages_sublist |]. split.
  - intros r Hr. by apply elem_of_filterMessages in Hr as [_ Hr].
  - intros r HR Hout Hsat. apply Hout, elem_of_filterMessages. by split.
Qed.

Lemma filterMessages_stable_witness :
  sublist (filterMessages [recordA; recordB] (Filter.mk 2 []))
          [recordA; recordB] ∧
  satisfiesPredicate (Filter.mk 2 []) recordB ∧
  ¬ satisfiesPredicate (Filter.mk 2 []) recordA.
Proof.
  destruct (filterMessages_stable [recordA; recordB] (Filter.mk 2 []))
    as [Hsub [Hin Hout]].
  split; [exact Hsub |]. split.
  - apply Hin. apply list_elem_of_In. simpl. auto.
  - apply Hout.
    + apply list_elem_of_In. simpl. auto.
    + rewrite list_elem_of_In. simpl. intros [H|[]]. discriminate H.
Defined.

Lemma passesFilter_filterMessages (R : list LogMessageEvent.t) (F : Filter.t) :
  Forall (λ r, passesFilter F r = true) (filterMessages R F).
Proof.
  unfold filterMessages. induction R as [|r R IH]; simpl.
  - constructor.
  - destruct (passesFilter F r) eqn:Hr; [by constructor | done].
Qed.

Lemma filter_all_pass {A} (p : A → bool) (l : list A) :
  Forall (λ x, p x = true) l → List.filter p l = l.
Proof.
  induction 1 as [|x l Hx _ IH]; simpl; [done|]. by rewrite Hx, IH.
Qed.

(** C7: filtering is idempotent. *)
Theorem filterMessages_idempotent (R : list LogMessageEvent.t) (F : Filter.t) :
  filterMessages (filterMessages R F) F = filterMessages R F.
Proof.
  unfold filterMessages at 1. apply filter_all_pass, passesFilter_filterMessages.
Qed.

(** ** Topic selection *)

Lemma Array_includes_true (arr : list string) (x : string) :
  Array_includes arr x = true ↔ x ∈ arr.
Proof.
  unfold Array_includes. split; intros H.
  - by apply bool_decide_eq_true in H.
  - by apply bool_decide_eq_true.
Qed.

Lemma availableTopics_none (allowed : list string) (topics : list Topic.t) :
  Forall (λ t, Topic.datatype t ∉ allowed) topics →
  availableTopics allowed topics = [].
Proof.
  unfold availableTopics. induction 1 as [|t ts Ht _ IH]; simpl; [done|].
  destruct (Array_includes allowed (Topic.datatype t)) eqn:Hinc; [|done].
  by apply Array_includes_true in Hinc.
Qed.

Lemma availableTopics_first (allowed : list string)
  (pre post : list Topic.t) (topic : Topic.t) :
  Forall (λ t, Topic.datatype t ∉ allowed) pre →
  Topic.datatype topic ∈ allowed →
  availableTopics allowed (pre ++ topic :: post) =
  topic :: availableTopics allowed post.
Proof.
  intros Hpre Htopic. unfold availableTopics. rewrite List.filter_app.
  fold (availableTopics allowed pre). rewrite availableTopics_none by done.
  simpl. apply Array_includes_true in Htopic. by rewrite Htopic.
Qed.

(** C3: the selected topic is the explicit choice whenever there is one,
    whatever the topics are; otherwise the name of the first topic, in the
    original order, whose datatype is allowed; otherwise "/rosout". The
    function is total: a stale explicit choice is returned like any other. *)
Theorem topicToRender_resolution (allowed : list string)
  (topics : list Topic.t) (explicitChoice : option string) :
  (∀ choice, explicitChoice = Some choice →
     topicToRender allowed topics explicitChoice = choice) ∧
  (explicitChoice = None →
     (∀ pre topic post,
        topics = pre ++ topic :: post →
        Forall (λ t, Topic.datatype t ∉ allowed) pre →
        Topic.datatype topic ∈ allowed →
        topicToRender allowed topics explicitChoice = Topic.name topic) ∧
     (Forall (λ t, Topic.datatype t ∉ allowed) topics →
        topicToRender allowed topics explicitChoice = "/rosout")).
Proof.
  split.
  - by intros choice ->.
  - intros ->. unfold topicToRender, defaultTopicToRender. split.
    + intros pre topic post -> Hpre Htopic.
      by rewrite availableTopics_first.
    + intros Hnone. by rewrite availableTopics_none.
Qed.

(** The scenario of section 8, and the panel's own allow-list with no
    log topic at all. *)
Lemma topicToRender_resolution_witness :
  topicToRender ["T1"] [Topic.mk "a" "T1"; Topic.mk "b" "T2"] (Some "z") = "z" ∧
  topicToRender ["T1"] [Topic.mk "a" "T1"; Topic.mk "b" "T2"] None = "a" ∧
  topicToRender SUPPORTED_DATATYPES [Topic.mk "/tf" "tf2_msgs/TFMessage"] None
    = "/rosout".
Proof.
  split; [| split].
  - apply (proj1 (topicToRender_resolution
                    ["T1"] [Topic.mk "a" "T1"; Topic.mk "b" "T2"] (Some "z"))).
    reflexivity.
  - apply (proj1 (proj2 (topicToRender_resolution
                    ["T1"] [Topic.mk "a" "T1"; Topic.mk "b" "T2"] None)
                  eq_refl)
             [] (Topic.mk "a" "T1") [Topic.mk "b" "T2"]).
    + reflexivity.
    + constructor.
    + apply list_elem_of_In. simpl. auto.
  - apply (proj2 (proj2 (topicToRender_resolution
                    SUPPORTED_DATATYPES
                    [Topic.mk "/tf" "tf2_msgs/TFMessage"] None)
                  eq_refl)).
    constructor; [| constructor].
    rewrite list_elem_of_In. simpl. intros H.
    repeat (destruct H as [H|H]; [discriminate H |]). exact H.
Defined.

(** ** Autoscroll *)

Ltac unfold_handlers :=
  cbv [handle onPagesUpdated listener scrollToBottomAction scrollToBottom
       setHasUserScrolled setScrollByUpdate div_scrollHeight div_setScrollTop
       tell get mbind mret Handler_bind Handler_ret negb
       hasUserScrolled scrollByUpdate divRef app].

Lemma controllerState_Following (s : Panel) :
  controllerState s = Following ↔ hasUserScrolled s = false.
Proof. unfold controllerState. by destruct (hasUserScrolled s). Qed.

Lemma controllerState_Paused (s : Panel) :
  controllerState s = Paused ↔ hasUserScrolled s = true.
Proof. unfold controllerState. by destruct (hasUserScrolled s). Qed.

Lemma scrollCalls_app (log1 log2 : list Effect) :
  scrollCalls (log1 ++ log2) = (scrollCalls log1 + scrollCalls log2)%nat.
Proof. unfold scrollCalls. by rewrite filter_app, length_app. Qed.

Lemma scrollToBottom_null (s : Panel) :
  divRef s = None → scrollToBottom s = Normal (tt, s, [CallScrollToBottom]).
Proof. destruct s as [h b [div|]]; [done|]. intros _. reflexivity. Qed.

Lemma scrollToBottom_attached (s : Panel) (div : Div) :
  divRef s = Some div →
  scrollToBottom s =
  Normal (tt,
          {| hasUserScrolled := hasUserScrolled s;
             scrollByUpdate := scrollByUpdate s;
             divRef := Some {| scrollTop := clampScrollTop div (scrollHeight div);
                               scrollHeight := scrollHeight div;
                               clientHeight := clientHeight div |} |},
          [CallScrollToBottom; SetScrollTop (scrollHeight div)]).
Proof. destruct s as [h b [d|]]; [|done]. intros [= ->]. reflexivity. Qed.

Lemma onPagesUpdated_paused (s : Panel) :
  hasUserScrolled s = true → onPagesUpdated s = Normal (tt, s, []).
Proof. destruct s as [h b d]; simpl; intros ->. reflexivity. Qed.

Lemma listener_eq (s : Panel) :
  ∃ log,
    listener s =
      Normal (tt, {| hasUserScrolled := hasUserScrolled s || negb (scrollByUpdate s);
                     scrollByUpdate := false;
                     divRef := divRef s |}, log) ∧
    scrollCalls log = 0%nat.
Proof.
  destruct s as [[] [] d]; eexists; (split; [unfold_handlers; reflexivity | done]).
Qed.

Lemma run_cons (e : Event) (es : list Event) (s s1 : Panel) (log1 : list Effect) :
  handle e s = Normal (tt, s1, log1) →
  run (e :: es) s =
  match run es s1 with
  | Throw err => Throw err
  | Normal (b, s2, log2) => Normal (b, s2, log1 ++ log2)
  end.
Proof.
  intros He. change (run (e :: es) s) with (Handler_bind _ _ (λ _, run es) (handle e) s).
  unfold Handler_bind. by rewrite He.
Qed.

(** While paused, and as long as the button is not clicked, nothing
    scrolls and the controller stays paused. *)
Lemma run_paused (es : list Event) (s : Panel) :
  hasUserScrolled s = true →
  ClickScrollToBottom ∉ es →
  ∃ s' log,
    run es s = Normal (tt, s', log) ∧
    scrollCalls log = 0%nat ∧ hasUserScrolled s' = true ∧ divRef s' = divRef s.
Proof.
  revert s. induction es as [|e es IH]; intros s Hs Hclick.
  - by exists s, [].
  - apply not_elem_of_cons in Hclick as [Hne Hclick].
    destruct e; [| |done].
    + rewrite (run_cons PagesUpdated _ _ _ _ (onPagesUpdated_paused s Hs)).
      destruct (IH s Hs Hclick) as (s' & log & -> & ? & ? & ?).
      by exists s', log.
    + destruct (listener_eq s) as (log1 & Hl & Hcalls1).
      rewrite (run_cons Scroll _ _ _ _ Hl). rewrite Hs in *. simpl orb in *.
      destruct (IH {| hasUserScrolled := true; scrollByUpdate := false;
                      divRef := divRef s |} eq_refl Hclick)
        as (s' & log & -> & Hcalls & ? & ?).
      exists s', (log1 ++ log). rewrite scrollCalls_app, Hcalls1, Hcalls. done.
Qed.

Lemma scrollWrites_app (log1 log2 : list Effect) :
  scrollWrites (log1 ++ log2) = (scrollWrites log1 + scrollWrites log2)%nat.
Proof. unfold scrollWrites. by rewrite List.filter_app, length_app. Qed.

(** With no viewport element every handler returns, the handle stays null
    and no scroll offset is written. *)
Lemma handle_detached (e : Event) (s : Panel) :
  divRef s = None →
  ∃ s' log,
    handle e s = Normal (tt, s', log) ∧ divRef s' = None ∧
    scrollWrites log = 0%nat.
Proof.
  destruct s as [h b [div|]]; [done|]. intros _.
  destruct e, h, b; eexists _, _;
    (split; [unfold_handlers; reflexivity | split; reflexivity]).
Qed.

Lemma run_detached (es : list Event) (s : Panel) :
  divRef s = None →
  ∃ s' log,
    run es s = Normal (tt, s', log) ∧ divRef s' = None ∧
    scrollWrites log = 0%nat.
Proof.
  revert s. induction es as [|e es IH]; intros s Hs.
  - by exists s, [].
  - destruct (handle_detached e s Hs) as (s1 & log1 & H1 & Hs1 & Hw1).
    rewrite (run_cons e es s s1 log1 H1).
    destruct (IH s1 Hs1) as (s' & log & -> & ? & Hw).
    exists s', (log1 ++ log). by rewrite scrollWrites_app, Hw1, Hw.
Qed.

(** C9: with a null viewport handle [scrollToBottom] returns normally and
    leaves every cell of the panel as it was; and whatever events are
    handled in that situation, none throws, the handle stays null and no
    scroll offset is ever written. *)
Theorem scrollToBottom_detached (s : Panel) (Hnull : divRef s = None) :
  scrollToBottom s = Normal (tt, s, [CallScrollToBottom]) ∧
  (∀ es, ∃ s' log,
     run es s = Normal (tt, s', log) ∧ divRef s' = None ∧
     scrollWrites log = 0%nat).
Proof.
  split.
  - by apply scrollToBottom_null.
  - intros es. by apply run_detached.
Qed.

Lemma scrollToBottom_detached_witness :
  scrollToBottom (mountPanel None) =
  Normal (tt, mountPanel None, [CallScrollToBottom]).
Proof.
  exact (proj1 (scrollToBottom_detached (mountPanel None) eq_refl)).
Defined.

(** ** Seen node names *)

Lemma elem_of_seenNodeNames (cache : gset string)
  (events : list LogMessageEvent.t) (n : string) :
  n ∈ seenNodeNames cache events ↔
  n ∈ cache ∨
  ∃ ev, ev ∈ events ∧ LogMessage.name (LogMessageEvent.message ev) = Some n.
Proof.
  unfold seenNodeNames. revert cache.
  induction events as [|ev events IH]; intros cache; simpl.
  - split; [by left | intros [H | (ev & Hev & _)]; [done |]].
    by apply elem_of_nil in Hev.
  - rewrite IH. split.
    + intros [Hn | (ev' & Hev' & Hname)].
      * destruct (LogMessage.name (LogMessageEvent.message ev)) as [m|] eqn:Hm.
        -- apply elem_of_union in Hn as [Hn | Hn]; [| by left].
           apply elem_of_singleton in Hn as ->.
           right. exists ev. split; [apply list_elem_of_here | done].
        -- by left.
      * right. exists ev'. split; [by apply list_elem_of_further | done].
    + intros [Hn | (ev' & Hev' & Hname)].
      * left. destruct (LogMessage.name (LogMessageEvent.message ev));
          [apply elem_of_union; by right | done].
      * apply elem_of_cons in Hev' as [-> | Hev'].
        -- left. rewrite Hname. apply elem_of_union. left.
           by apply elem_of_singleton.
        -- right. by exists ev'.
Qed.

Lemma renderSeenNodeNames_grows (cache : gset string) (r : RenderInput) :
  cache ⊆ renderSeenNodeNames cache r.
Proof.
  intros n Hn. unfold renderSeenNodeNames.
  apply elem_of_seenNodeNames. by left.
Qed.

(** C6, as the code has it: a render never removes a name from the set and
    adds every defined name of the batch and nothing else; this holds as
    well when the selected topic differs from that of the previous render,
    so the names of the previous topic stay in the set. *)
Theorem seenNodeNames_accumulates (cache : gset string) (r : RenderInput) :
  cache ⊆ renderSeenNodeNames cache r ∧
  (∀ ev n, ev ∈ msgEvents r →
     LogMessage.name (LogMessageEvent.message ev) = Some n →
     n ∈ renderSeenNodeNames cache r) ∧
  (∀ n, n ∈ renderSeenNodeNames cache r →
     n ∈ cache ∨
     ∃ ev, ev ∈ msgEvents r ∧
           LogMessage.name (LogMessageEvent.message ev) = Some n) ∧
  (∀ previous : RenderInput,
     LogPanel_topicToRender (topics previous) (config previous) ≠
     LogPanel_topicToRender (topics r) (config r) →
     renderSeenNodeNames cache previous ⊆
     renderSeenNodeNames (renderSeenNodeNames cache previous) r).
Proof.
  split; [apply renderSeenNodeNames_grows |]. split; [| split].
  - intros ev n Hev Hname. apply elem_of_seenNodeNames. right. by exists ev.
  - intros n Hn. by apply elem_of_seenNodeNames in Hn.
  - intros previous _. apply renderSeenNodeNames_grows.
Qed.

Lemma seenNodeNames_accumulates_witness :
  "nodeB" ∈ renderSeenNodeNames (renderSeenNodeNames ∅ renderOnA) renderOnB ∧
  renderSeenNodeNames ∅ renderOnA ⊆
  renderSeenNodeNames (renderSeenNodeNames ∅ renderOnA) renderOnB.
Proof.
  destruct (seenNodeNames_accumulates (renderSeenNodeNames ∅ renderOnA) renderOnB)
    as (_ & Hadds & _ & _).
  destruct (seenNodeNames_accumulates ∅ renderOnB) as (_ & _ & _ & Hkeeps).
  split.
  - apply (Hadds (LogMessageEvent.mk "/b" (LogMessage.mk 2 (Some "nodeB") "up"))).
    + vm_compute. apply list_elem_of_here.
    + reflexivity.
  - apply Hkeeps. vm_compute. discriminate.
Defined.

(** C6, counterexample to the reset: after a render on topic "/a" and a
    render on the other topic "/b", the name seen on "/a" is still in the
    set, which therefore is not the set of names of the current topic. *)
Lemma seenNodeNames_not_reset :
  (LogPanel_topicToRender (topics renderOnA) (config renderOnA) ≠
   LogPanel_topicToRender (topics renderOnB) (config renderOnB)) ∧
  "nodeA" ∈ seenAfterRenders [renderOnA; renderOnB] ∧
  ("nodeA" ∉ seenNodeNames ∅ (msgEvents renderOnB)) ∧
  (seenAfterRenders [renderOnA; renderOnB] ≠
   seenNodeNames ∅ (msgEvents renderOnB)).
Proof.
  assert (Hin : "nodeA" ∈ seenAfterRenders [renderOnA; renderOnB]).
  { apply (bool_decide_unpack _). by vm_compute. }
  assert (Hout : "nodeA" ∉ seenNodeNames ∅ (msgEvents renderOnB)).
  { apply (bool_decide_unpack _). by vm_compute. }
  split; [vm_compute; discriminate |]. split; [exact Hin |].
  split; [exact Hout |]. intros Heq. apply Hout. by rewrite <- Heq.
Qed.

(** ** Cell rendering *)

Lemma foldl_insert_lookup_None (topics : list Topic.t)
  (out : gmap string string) (k : string) :
  foldl (λ out topic, <[Topic.name topic := Topic.datatype topic]> out)
        out topics !! k = None ↔
  out !! k = None ∧ Forall (λ t, Topic.name t ≠ k) topics.
Proof.
  revert out. induction topics as [|t topics IH]; intros out; simpl.
  - split; [intros H; by split | by intros [H _]].
  - rewrite IH, lookup_insert_None, Forall_cons. tauto.
Qed.

Lemma datatypeByTopic_None (topics : list Topic.t) (k : string) :
  datatypeByTopic topics !! k = None ↔ Forall (λ t, Topic.name t ≠ k) topics.
Proof.
  unfold datatypeByTopic. rewrite foldl_insert_lookup_None, lookup_empty. tauto.
Qed.

(** C8, as the code has it: a topic has no entry in [datatypeByTopic]
    exactly when no topic of the catalogue bears its name, and for a record
    of such a topic [onRenderCell] returns nothing, without calling the
    normalization and so without throwing. A record whose topic is
    registered with a non-empty datatype is never dropped, whatever the
    normalization does with that datatype: the normalization is called, and
    what it throws is thrown by [onRenderCell]. *)
Theorem onRenderCell_unknown_datatype (N : Type)
  (normalizedLogMessage : string → LogMessage.t → Completion N)
  (topics : list Topic.t) (timeFormat : string) (tz : option string)
  (item : LogMessageEvent.t) :
  (datatypeByTopic topics !! LogMessageEvent.topic item = None ↔
   Forall (λ t, Topic.name t ≠ LogMessageEvent.topic item) topics) ∧
  (datatypeByTopic topics !! LogMessageEvent.topic item = None →
   onRenderCell N normalizedLogMessage topics timeFormat tz (Some item)
   = Normal None) ∧
  (∀ d,
     datatypeByTopic topics !! LogMessageEvent.topic item = Some d →
     d ≠ "" →
     onRenderCell N normalizedLogMessage topics timeFormat tz (Some item)
       ≠ Normal None ∧
     ∀ e, normalizedLogMessage d (LogMessageEvent.message item) = Throw e →
          onRenderCell N normalizedLogMessage topics timeFormat tz (Some item)
          = Throw e).
Proof.
  split; [apply datatypeByTopic_None |]. split.
  - intros Hnone. unfold onRenderCell. by rewrite Hnone.
  - intros d Hd Hne. unfold onRenderCell. rewrite Hd. simpl.
    rewrite bool_decide_eq_false_2 by done.
    destruct (normalizedLogMessage d (LogMessageEvent.message item)) as [v|e'];
      split; try done.
    by intros e [= <-].
Qed.

(** A record of "/rosout" when only "/a" is in the catalogue, with a
    normalization that throws on every input: dropped; and the same record
    when "/rosout" is registered with a datatype the normalization has no
    rule for: the error comes out. *)
Lemma onRenderCell_unknown_datatype_witness :
  onRenderCell unit (λ _ _, Throw "unsupported datatype")
    [Topic.mk "/a" "foxglove.Log"] "SEC" None (Some recordA) = Normal None ∧
  onRenderCell unit (λ _ _, Throw "unsupported datatype")
    [Topic.mk "/rosout" "std_msgs/String"] "SEC" None (Some recordA)
  = Throw "unsupported datatype".
Proof.
  split.
  - apply (proj1 (proj2 (onRenderCell_unknown_datatype unit
                    (λ _ _, Throw "unsupported datatype")
                    [Topic.mk "/a" "foxglove.Log"] "SEC" None recordA))).
    apply datatypeByTopic_None. constructor; [discriminate | constructor].
  - apply (proj2 (proj2 (onRenderCell_unknown_datatype unit
                    (λ _ _, Throw "unsupported datatype")
                    [Topic.mk "/rosout" "std_msgs/String"] "SEC" None recordA))
             "std_msgs/String").
    + reflexivity.
    + discriminate.
    + reflexivity.
Defined.

(** C8, counterexample to the silent drop: "/rosout" is registered with
    the datatype "std_msgs/String", for which there is no normalization
    rule. Whatever the normalization is, the record is not dropped; with a
    normalization that rejects the datatype, [onRenderCell] throws. *)
Lemma onRenderCell_unsupported_not_dropped :
  (∀ (N : Type) (normalizedLogMessage : string → LogMessage.t → Completion N),
     onRenderCell N normalizedLogMessage
       [Topic.mk "/rosout" "std_msgs/String"] "SEC" None (Some recordA)
     ≠ Normal None) ∧
  onRenderCell unit
    (λ datatype _,
       if bool_decide (datatype ∈ SUPPORTED_DATATYPES)
       then Normal tt else Throw "unsupported datatype")
    [Topic.mk "/rosout" "std_msgs/String"] "SEC" None (Some recordA)
  = Throw "unsupported datatype".
Proof.
  split; [| reflexivity].
  intros N normalizedLogMessage. unfold onRenderCell.
  change (datatypeByTopic [Topic.mk "/rosout" "std_msgs/String"]
            !! LogMessageEvent.topic recordA)
    with (Some "std_msgs/String").
  simpl. by destruct (normalizedLogMessage _ _).
Qed.

(** ** Timestamp *)

Lemma isAbsoluteTime_false (t : Time.t) :
  isAbsoluteTime t = false ↔ Time.sec t ≤ 630720000.
Proof.
  unfold isAbsoluteTime, DURATION_20_YEARS_SEC. rewrite Z.ltb_ge. lia.
Qed.

(** C10: the component renders the raw seconds.nanoseconds string alone
    exactly when [time.sec] is at most 630720000 = 20 * 365 * 24 * 60 * 60;
    in particular at [sec = 630720000]; above it, it renders the formatted
    time (with the date unless disabled). *)
Theorem Timestamp_raw_iff (formatTime formatTimeRaw : Time.t → string)
  (formatDate : Time.t → option string → string) (props : TimestampProps) :
  DURATION_20_YEARS_SEC = 630720000 ∧
  (Timestamp formatTime formatTimeRaw formatDate props
     = RawTime (formatTimeRaw (time props)) ↔
   Time.sec (time props) ≤ 630720000) ∧
  (Time.sec (time props) = 630720000 →
   Timestamp formatTime formatTimeRaw formatDate props
     = RawTime (formatTimeRaw (time props))) ∧
  (630720000 < Time.sec (time props) →
   ∃ isHorizontal date chevron,
     Timestamp formatTime formatTimeRaw formatDate props
       = DateAndTime isHorizontal date chevron (formatTime (time props))).
Proof.
  assert (Hraw : Timestamp formatTime formatTimeRaw formatDate props
                   = RawTime (formatTimeRaw (time props)) ↔
                 Time.sec (time props) ≤ 630720000).
  { rewrite <- isAbsoluteTime_false. unfold Timestamp.
    destruct (isAbsoluteTime (time props)); simpl; split; done. }
  split; [reflexivity |]. split; [exact Hraw |]. split.
  - intros Hsec. apply Hraw. lia.
  - intros Hsec. unfold Timestamp.
    destruct (isAbsoluteTime (time props)) eqn:Habs; simpl.
    + by eexists _, _, _.
    + apply isAbsoluteTime_false in Habs. lia.
Qed.

(** The boundary value, and one second past it. *)
Lemma Timestamp_raw_iff_witness :
  Timestamp (λ _, "formatted") (λ _, "630720000.000000000") (λ _ _, "date")
    {| disableDate := None; horizontal := None;
       time := Time.mk 630720000 0; timezone := None |}
  = RawTime "630720000.000000000" ∧
  ∃ isHorizontal date chevron,
    Timestamp (λ _, "formatted") (λ _, "630720001.000000000") (λ _ _, "date")
      {| disableDate := None; horizontal := None;
         time := Time.mk 630720001 0; timezone := None |}
    = DateAndTime isHorizontal date chevron "formatted".
Proof.
  split.
  - apply (proj1 (proj2 (proj2 (Timestamp_raw_iff
             (λ _, "formatted") (λ _, "630720000.000000000") (λ _ _, "date")
             {| disableDate := None; horizontal := None;
                time := Time.mk 630720000 0; timezone := None |})))).
    reflexivity.
  - apply (proj2 (proj2 (proj2 (Timestamp_raw_iff
             (λ _, "formatted") (λ _, "630720001.000000000") (λ _ _, "date")
             {| disableDate := None; horizontal := None;
                time := Time.mk 630720001 0; timezone := None |})))).
    simpl. lia.
Defined.


(** * Further properties of the panel code *)

(** ** Available topics and the default selection *)

Lemma elem_of_availableTopics (allowed : list string)
  (topics : list Topic.t) (t : Topic.t) :
  t ∈ availableTopics allowed topics ↔
  t ∈ topics ∧ Topic.datatype t ∈ allowed.
Proof.
  unfold availableTopics.
  rewrite !list_elem_of_In, filter_In, Array_includes_true.
  by rewrite list_elem_of_In.
Qed.

(** X1: the topics offered for selection are the catalogue's topics of an
    allowed datatype, each as often and in the order the catalogue has
    them. *)
Theorem availableTopics_spec (allowed : list string) (topics : list Topic.t) :
  sublist (availableTopics allowed topics) topics ∧
  (∀ t, t ∈ availableTopics allowed topics ↔
        t ∈ topics ∧ Topic.datatype t ∈ allowed) ∧
  (∀ more, availableTopics allowed (topics ++ more) =
           availableTopics allowed topics ++ availableTopics allowed more) ∧
  availableTopics allowed (availableTopics allowed topics) =
  availableTopics allowed topics.
Proof.
  split; [| split; [| split]].
  - unfold availableTopics. induction topics as [|t topics IH]; simpl.
    + constructor.
    + destruct (Array_includes allowed (Topic.datatype t)); by constructor.
  - apply elem_of_availableTopics.
  - intros more. apply List.filter_app.
  - unfold availableTopics at 1. apply filter_all_pass.
    apply Forall_forall. intros t Ht.
    apply elem_of_availableTopics in Ht as [_ Ht].
    by apply Array_includes_true.
Qed.

Lemma defaultTopicToRender_app (allowed : list string)
  (topics more : list Topic.t) :
  availableTopics allowed topics ≠ [] →
  defaultTopicToRender allowed (topics ++ more) =
  defaultTopicToRender allowed topics.
Proof.
  intros Hne. unfold defaultTopicToRender, availableTopics in *.
  rewrite List.filter_app.
  by destruct (List.filter _ topics).
Qed.

(** X2: the selection does not move when the catalogue grows behind a
    topic that is already selectable, nor when topics of other datatypes
    are put in front of it. *)
Theorem topicToRender_stable (allowed : list string)
  (topics : list Topic.t) (explicitChoice : option string) :
  (∀ more, availableTopics allowed topics ≠ [] →
     topicToRender allowed (topics ++ more) explicitChoice =
     topicToRender allowed topics explicitChoice) ∧
  (∀ others, Forall (λ t, Topic.datatype t ∉ allowed) others →
     topicToRender allowed (others ++ topics) explicitChoice =
     topicToRender allowed topics explicitChoice).
Proof.
  split.
  - intros more Hne. unfold topicToRender.
    by rewrite defaultTopicToRender_app.
  - intros others Hothers. unfold topicToRender, defaultTopicToRender.
    unfold availableTopics at 1. rewrite List.filter_app.
    fold (availableTopics allowed others).
    by rewrite availableTopics_none.
Qed.

Lemma topicToRender_stable_witness :
  topicToRender SUPPORTED_DATATYPES
    ([Topic.mk "/rosout" "rosgraph_msgs/Log"] ++
     [Topic.mk "/early" "foxglove.Log"]) None = "/rosout" ∧
  topicToRender SUPPORTED_DATATYPES
    ([Topic.mk "/tf" "tf2_msgs/TFMessage"] ++
     [Topic.mk "/rosout" "rosgraph_msgs/Log"]) None = "/rosout".
Proof.
  split.
  - rewrite (proj1 (topicToRender_stable SUPPORTED_DATATYPES
                      [Topic.mk "/rosout" "rosgraph_msgs/Log"] None)).
    + reflexivity.
    + vm_compute. discriminate.
  - rewrite (proj2 (topicToRender_stable SUPPORTED_DATATYPES
                      [Topic.mk "/rosout" "rosgraph_msgs/Log"] None)).
    + reflexivity.
    + constructor; [| constructor].
      rewrite list_elem_of_In. simpl. intros H.
      repeat (destruct H as [H|H]; [discriminate H |]). exact H.
Defined.

(** ** The datatype map *)

Lemma foldl_insert_lookup_other (topics : list Topic.t)
  (out : gmap string string) (k : string) :
  Forall (λ t, Topic.name t ≠ k) topics →
  foldl (λ out topic, <[Topic.name topic := Topic.datatype topic]> out)
        out topics !! k = out !! k.
Proof.
  intros H. revert out. induction H as [|t topics Ht _ IH]; intros out; simpl.
  - done.
  - by rewrite IH, lookup_insert_ne.
Qed.

Lemma foldl_insert_lookup_Some (topics : list Topic.t)
  (out : gmap string string) (k d : string) :
  foldl (λ out topic, <[Topic.name topic := Topic.datatype topic]> out)
        out topics !! k = Some d →
  out !! k = Some d ∨
  ∃ t, t ∈ topics ∧ Topic.name t = k ∧ Topic.datatype t = d.
Proof.
  revert out. induction topics as [|t topics IH]; intros out; simpl.
  - by left.
  - intros H. apply IH in H as [H | (t' & Ht' & Hk & Hd)].
    + destruct (decide (Topic.name t = k)) as [Heq | Hne].
      * rewrite <- Heq, lookup_insert_eq in H. injection H as <-.
        right. exists t. split; [apply list_elem_of_here | done].
      * rewrite lookup_insert_ne in H by done. by left.
    + right. exists t'. split; [by apply list_elem_of_further | done].
Qed.

(** X3: [datatypeByTopic] maps a name to the datatype of the last topic of
    that name in the catalogue, and any datatype it returns is that of some
    topic of that name. *)
Theorem datatypeByTopic_last_wins (topics : list Topic.t) :
  (∀ pre t post,
     topics = pre ++ t :: post →
     Forall (λ t', Topic.name t' ≠ Topic.name t) post →
     datatypeByTopic topics !! Topic.name t = Some (Topic.datatype t)) ∧
  (∀ k d,
     datatypeByTopic topics !! k = Some d →
     ∃ t, t ∈ topics ∧ Topic.name t = k ∧ Topic.datatype t = d).
Proof.
  split.
  - intros pre t post -> Hpost. unfold datatypeByTopic.
    rewrite foldl_app. simpl.
    by rewrite foldl_insert_lookup_other, lookup_insert_eq.
  - intros k d H. unfold datatypeByTopic in H.
    apply foldl_insert_lookup_Some in H as [H | H]; [| done].
    by rewrite lookup_empty in H.
Qed.

(** Two topics of one name: the second one's datatype is kept. *)
Lemma datatypeByTopic_last_wins_witness :
  datatypeByTopic [Topic.mk "/log" "rosgraph_msgs/Log";
                   Topic.mk "/log" "foxglove.Log"] !! "/log"
  = Some "foxglove.Log".
Proof.
  apply (proj1 (datatypeByTopic_last_wins
                  [Topic.mk "/log" "rosgraph_msgs/Log";
                   Topic.mk "/log" "foxglove.Log"])
           [Topic.mk "/log" "rosgraph_msgs/Log"]
           (Topic.mk "/log" "foxglove.Log") []).
  - reflexivity.
  - constructor.
Defined.

(** ** Cell rendering, all cases *)

Lemma falsy_false (datatype : option string) :
  falsy datatype = false ↔ ∃ d, datatype = Some d ∧ d ≠ "".
Proof.
  unfold falsy. destruct datatype as [d|].
  - rewrite bool_decide_eq_false. split.
    + intros Hd. by exists d.
    + by intros (d' & [= <-] & Hd).
  - split; [done | by intros (d & ? & _)].
Qed.

(** X4: [onRenderCell] renders nothing exactly when there is no item or
    the item's topic has no datatype or the empty one; otherwise it calls
    the normalization with that datatype and the item's message, renders
    its result with the given time format and zone, and throws exactly
    what the normalization throws. *)
Theorem onRenderCell_cases (N : Type)
  (normalizedLogMessage : string → LogMessage.t → Completion N)
  (topics : list Topic.t) (timeFormat : string) (tz : option string)
  (item : option LogMessageEvent.t) :
  (onRenderCell N normalizedLogMessage topics timeFormat tz item = Normal None ↔
   item = None ∨
   ∃ it, item = Some it ∧
         falsy (datatypeByTopic topics !! LogMessageEvent.topic it) = true) ∧
  (∀ it d,
     item = Some it →
     datatypeByTopic topics !! LogMessageEvent.topic it = Some d →
     d ≠ "" →
     onRenderCell N normalizedLogMessage topics timeFormat tz item =
     match normalizedLogMessage d (LogMessageEvent.message it) with
     | Throw e => Throw e
     | Normal v => Normal (Some (Build_LogMessageElement N v timeFormat tz))
     end).
Proof.
  split.
  - destruct item as [it|]; simpl.
    + destruct (falsy (datatypeByTopic topics !! LogMessageEvent.topic it))
        eqn:Hf.
      * split; [intros _; right; by exists it | done].
      * destruct (normalizedLogMessage _ _); split; try done;
          intros [? | (it' & [= <-] & Hf')]; congruence.
    + split; [by left | done].
  - intros it d -> Hd Hne. simpl. rewrite Hd.
    assert (falsy (Some d) = false) as -> by (apply falsy_false; by exists d).
    reflexivity.
Qed.

(** A topic registered with the empty datatype is not rendered, and a
    normalization error on a registered datatype is passed on. *)
Lemma onRenderCell_cases_witness :
  onRenderCell unit (λ _ _, Throw "unsupported datatype")
    [Topic.mk "/rosout" ""] "SEC" None (Some recordA) = Normal None ∧
  onRenderCell unit (λ _ _, Throw "unsupported datatype")
    [Topic.mk "/rosout" "std_msgs/String"] "SEC" None (Some recordA)
  = Throw "unsupported datatype".
Proof.
  split.
  - apply (proj1 (onRenderCell_cases unit (λ _ _, Throw "unsupported datatype")
                    [Topic.mk "/rosout" ""] "SEC" None (Some recordA))).
    right. exists recordA. split; reflexivity.
  - apply (proj2 (onRenderCell_cases unit (λ _ _, Throw "unsupported datatype")
                    [Topic.mk "/rosout" "std_msgs/String"] "SEC" None
                    (Some recordA))
             recordA "std_msgs/String").
    + reflexivity.
    + reflexivity.
    + discriminate.
Defined.

(** ** Config updates *)

(** X5: after any series of filter changes and topic choices, the saved
    config holds the last topic chosen (or the one it had, if none was) and
    the last filter set (or the one it had): no change is lost and none
    disturbs the other setting. In particular the panel then shows the last
    topic chosen, whatever the catalogue is. *)
Theorem saveConfigs_last (config : Config.t) (actions : list ConfigAction)
  (topics : list Topic.t) :
  Config.topicToRender (saveConfigs config actions) =
    nullish_opt (lastTopic actions) (Config.topicToRender config) ∧
  filterOf (saveConfigs config actions) =
    nullish (lastFilter actions) (filterOf config) ∧
  LogPanel_topicToRender topics (saveConfigs config actions) =
    nullish (lastTopic actions) (LogPanel_topicToRender topics config).
Proof.
  assert (H : Config.topicToRender (saveConfigs config actions) =
                nullish_opt (lastTopic actions) (Config.topicToRender config) ∧
              filterOf (saveConfigs config actions) =
                nullish (lastFilter actions) (filterOf config)).
  { unfold saveConfigs, lastTopic, lastFilter.
    induction actions as [|a actions IH] using rev_ind; [done |].
    rewrite foldl_app, !omap_app. destruct IH as [IHt IHf].
    destruct a as [[level terms] | t]; simpl.
    - rewrite app_nil_r, last_snoc. by split.
    - rewrite app_nil_r, last_snoc. by split. }
  destruct H as [Ht Hf]. split; [exact Ht |]. split; [exact Hf |].
  unfold LogPanel_topicToRender. rewrite Ht.
  by destruct (lastTopic actions).
Qed.

(** ** Autoscroll, all handlers *)

Lemma handle_summary (e : Event) (s : Panel) :
  ∃ s' log,
    handle e s = Normal (tt, s', log) ∧
    geometry <$> divRef s' = geometry <$> divRef s ∧
    (scrollCalls log ≤ if mayScroll e then 1 else 0)%nat ∧
    scrollWrites log = match divRef s with
                       | Some _ => scrollCalls log
                       | None => 0%nat
                       end.
Proof.
  destruct s as [h b [div|]]; destruct e, h, b; eexists _, _;
    (split; [unfold_handlers; reflexivity |]);
    (split; [reflexivity |]);
    (split; [apply Nat.leb_le; reflexivity | reflexivity]).
Qed.

Lemma run_summary (es : list Event) (s : Panel) :
  ∃ s' log,
    run es s = Normal (tt, s', log) ∧
    geometry <$> divRef s' = geometry <$> divRef s ∧
    (scrollCalls log ≤ length (List.filter mayScroll es))%nat ∧
    scrollWrites log = match divRef s with
                       | Some _ => scrollCalls log
                       | None => 0%nat
                       end.
Proof.
  revert s. induction es as [|e es IH]; intros s.
  - exists s, []. repeat split;
      [apply Nat.leb_le; reflexivity | by destruct (divRef s)].
  - destruct (handle_summary e s) as (s1 & log1 & H1 & Hg1 & Hc1 & Hw1).
    rewrite (run_cons e es s s1 log1 H1).
    destruct (IH s1) as (s' & log & -> & Hg & Hc & Hw).
    exists s', (log1 ++ log). split; [done |]. split; [congruence |].
    rewrite scrollCalls_app, scrollWrites_app, Hw1, Hw. split.
    + simpl. destruct (mayScroll e); simpl; lia.
    + destruct (divRef s) as [d|], (divRef s1) as [d1|]; try done.
Qed.

(** X6: a second [scrollToBottom] right after the first leaves the panel
    as the first left it and does the same writes; neither touches the
    two flags. *)
Theorem scrollToBottom_idempotent (s : Panel) :
  ∃ s1 log,
    scrollToBottom s = Normal (tt, s1, log) ∧
    scrollToBottom s1 = Normal (tt, s1, log) ∧
    hasUserScrolled s1 = hasUserScrolled s ∧
    scrollByUpdate s1 = scrollByUpdate s.
Proof.
  destruct s as [h b [div|]]; eexists _, _;
    (split; [unfold_handlers; reflexivity |]);
    (split; [unfold_handlers; reflexivity |]); by split.
Qed.

(** X7: the flag is one-shot. Every scroll event clears it; an event that
    finds it set leaves the controller in the state it was in, whoever
    caused the event; and of two scroll events in a row the second always
    finds it cleared, so the controller is Paused after them. *)
Theorem listener_one_shot (s : Panel) :
  ∃ s1 log1 s2 log2,
    listener s = Normal (tt, s1, log1) ∧
    scrollByUpdate s1 = false ∧
    (scrollByUpdate s = true → controllerState s1 = controllerState s) ∧
    listener s1 = Normal (tt, s2, log2) ∧
    controllerState s2 = Paused.
Proof.
  destruct s as [[] [] div]; eexists _, _, _, _;
    (split; [unfold_handlers; reflexivity |]);
    (split; [reflexivity |]); (split; [done |]);
    (split; [unfold_handlers; reflexivity | reflexivity]).
Qed.

(** A manual scroll right after new content arrived, before the scroll
    event of the programmatic scroll, is taken for that event. *)
Lemma listener_one_shot_witness :
  ∃ s1 log1,
    listener {| hasUserScrolled := false; scrollByUpdate := true;
                divRef := Some tallViewport |} = Normal (tt, s1, log1) ∧
    controllerState s1 = Following.
Proof.
  destruct (listener_one_shot
              {| hasUserScrolled := false; scrollByUpdate := true;
                 divRef := Some tallViewport |})
    as (s1 & log1 & s2 & log2 & H1 & _ & Hkeep & _).
  exists s1, log1. split; [exact H1 |]. exact (Hkeep eq_refl).
Defined.

(** X8: no series of events makes a handler throw, whether the viewport
    is attached or not: the guard in [scrollToBottom] covers every
    property access. The handlers never attach or detach the element and
    never change its scroll height or client height. *)
Theorem run_never_throws (es : list Event) (s : Panel) :
  ∃ s' log,
    run es s = Normal (tt, s', log) ∧
    geometry <$> divRef s' = geometry <$> divRef s.
Proof.
  destruct (run_summary es s) as (s' & log & H & Hg & _).
  by exists s', log.
Qed.

(** X9: a run calls [scrollToBottom] at most once per event other than a
    scroll event, so scroll events alone never scroll; with the viewport
    attached every call writes the scroll offset once, and without it
    none does. *)
Theorem scrollCalls_bounded (es : list Event) (s : Panel) :
  ∃ s' log,
    run es s = Normal (tt, s', log) ∧
    (scrollCalls log ≤ length (List.filter mayScroll es))%nat ∧
    scrollWrites log = match divRef s with
                       | Some _ => scrollCalls log
                       | None => 0%nat
                       end.
Proof.
  destruct (run_summary es s) as (s' & log & H & _ & Hc & Hw).
  by exists s', log.
Qed.

(** ** Seen node names as a set union *)

Lemma seenNodeNames_union (cache : gset string)
  (events : list LogMessageEvent.t) :
  seenNodeNames cache events = cache ∪ nodeNamesOf events.
Proof.
  apply set_eq. intros n. unfold nodeNamesOf.
  by rewrite elem_of_seenNodeNames, elem_of_union, elem_of_list_to_set,
     list_elem_of_omap.
Qed.

(** X11: the loop over a batch adds the set of its defined names, so the
    order of the batch does not matter and rendering the same input again
    changes nothing (skipping the loop when the batch is the same array is
    sound); when the data source holds no history for the selected topic
    the set is left as it is. *)
Theorem seenNodeNames_set (cache : gset string) (r : RenderInput) :
  renderSeenNodeNames cache r = cache ∪ nodeNamesOf (msgEvents r) ∧
  renderSeenNodeNames (renderSeenNodeNames cache r) r =
    renderSeenNodeNames cache r ∧
  (∀ events, events ≡ₚ msgEvents r →
     seenNodeNames cache events = renderSeenNodeNames cache r) ∧
  (messagesByTopic r !! LogPanel_topicToRender (topics r) (config r) = None →
     msgEvents r = [] ∧ renderSeenNodeNames cache r = cache).
Proof.
  unfold renderSeenNodeNames. split; [apply seenNodeNames_union |].
  split; [| split].
  - rewrite !seenNodeNames_union.
    by rewrite <- (assoc_L (∪)), (idemp_L (∪)).
  - intros events Hperm. rewrite !seenNodeNames_union.
    unfold nodeNamesOf. by rewrite Hperm.
  - intros Hnone. unfold msgEvents. rewrite Hnone. by split.
Qed.

(** The user picked a topic the data source has no history for. *)
Lemma seenNodeNames_set_witness :
  msgEvents {| topics := twoLogTopics;
               config := Config.mk [] 1 (Some "/gone");
               messagesByTopic := twoTopicHistory |} = [] ∧
  renderSeenNodeNames {[ "nodeA" ]}
    {| topics := twoLogTopics;
       config := Config.mk [] 1 (Some "/gone");
       messagesByTopic := twoTopicHistory |} = {[ "nodeA" ]}.
Proof.
  apply (proj2 (proj2 (proj2 (seenNodeNames_set {[ "nodeA" ]}
           {| topics := twoLogTopics;
              config := Config.mk [] 1 (Some "/gone");
              messagesByTopic := twoTopicHistory |})))).
  by vm_compute.
Defined.

(** ** Timestamp layout *)

(** X12: for a relative time the element depends on the time alone, not
    on [disableDate], [horizontal] or [timezone]. For an absolute time the
    formatted time is always shown; the date is left out exactly when
    [disableDate] is true and is the date in the given time zone; the
    chevron is shown exactly when [horizontal] is true and the date is
    shown. Both options count as false when undefined. *)
Theorem Timestamp_layout (formatTime formatTimeRaw : Time.t → string)
  (formatDate : Time.t → option string → string) (props : TimestampProps) :
  (Time.sec (time props) ≤ 630720000 →
   ∀ props', time props' = time props →
     Timestamp formatTime formatTimeRaw formatDate props' =
     Timestamp formatTime formatTimeRaw formatDate props) ∧
  (630720000 < Time.sec (time props) →
   ∃ isHorizontal date chevron,
     Timestamp formatTime formatTimeRaw formatDate props
       = DateAndTime isHorizontal date chevron (formatTime (time props)) ∧
     (isHorizontal = true ↔ horizontal props = Some true) ∧
     (date = None ↔ disableDate props = Some true) ∧
     (∀ d, date = Some d → d = formatDate (time props) (timezone props)) ∧
     (chevron = true ↔
      horizontal props = Some true ∧ disableDate props ≠ Some true)).
Proof.
  split.
  - intros Hsec props' Htime. apply isAbsoluteTime_false in Hsec.
    unfold Timestamp. by rewrite Htime, Hsec.
  - intros Hsec. unfold Timestamp.
    destruct (isAbsoluteTime (time props)) eqn:Habs; simpl.
    + eexists _, _, _. split; [reflexivity |].
      destruct (horizontal props) as [[]|], (disableDate props) as [[]|];
        simpl; repeat split; try done; try congruence;
        try (by intros [? ?]); try (by intros d [= <-]).
    + apply isAbsoluteTime_false in Habs. lia.
Qed.

(** A vertical timestamp with the date disabled, one second past the
    threshold: the formatted time alone. *)
Lemma Timestamp_layout_witness :
  ∃ isHorizontal chevron,
    Timestamp (λ _, "formatted") (λ _, "raw") (λ _ _, "date")
      {| disableDate := Some true; horizontal := None;
         time := Time.mk 630720001 0; timezone := None |}
    = DateAndTime isHorizontal None chevron "formatted".
Proof.
  destruct (proj2 (Timestamp_layout
                     (λ _, "formatted") (λ _, "raw") (λ _ _, "date")
                     {| disableDate := Some true; horizontal := None;
                        time := Time.mk 630720001 0; timezone := None |}))
    as (h & d & c & Heq & _ & Hdate & _).
  - simpl. lia.
  - exists h, c. rewrite Heq. f_equal. by apply Hdate.
Defined.

(** ** Pose settings editor *)

(** X13: after an input is edited it shows the parsed value, whatever
    [parseFloat] made of the text and whether or not a size was set before;
    the other three inputs show what they showed, and the override colour
    and alpha are kept. *)
Theorem edit_read_back (number Color : Type)
  (literal parseFloat : string → number)
  (input : SizeInput) (settings : PoseSettings number Color) (value : string) :
  shown number literal Color input
        (edit number parseFloat Color input settings value)
    = parseFloat value ∧
  (∀ other, other ≠ input →
     shown number literal Color other
           (edit number parseFloat Color input settings value)
       = shown number literal Color other settings) ∧
  overrideColor number Color (edit number parseFloat Color input settings value)
    = overrideColor number Color settings ∧
  alpha number Color (edit number parseFloat Color input settings value)
    = alpha number Color settings.
Proof.
  destruct settings as [c a [sz|]]; destruct input;
    (split; [reflexivity |]); (split; [| by split]);
    intros other Hother; destruct other; done.
Qed.

(** With texts for numbers: editing the shaft width of empty settings
    leaves the shaft length at its default. *)
Lemma edit_read_back_witness :
  shown string (λ s, s) unit ShaftLength
        (edit string (λ s, s) unit ShaftWidth
              {| overrideColor := None; alpha := None; size := None |} "0.1")
  = "1".
Proof.
  rewrite (proj1 (proj2 (edit_read_back string unit (λ s, s) (λ s, s)
                           ShaftWidth
                           {| overrideColor := None; alpha := None;
                              size := None |} "0.1"))).
  - reflexivity.
  - discriminate.
Defined.

(** X14: edits of two different inputs give the same settings in either
    order, and of two edits of one input the later one wins. *)
Theorem edit_commutes (number Color : Type) (parseFloat : string → number)
  (input other : SizeInput) (settings : PoseSettings number Color)
  (value value' : string) :
  (other ≠ input →
   edit number parseFloat Color other
        (edit number parseFloat Color input settings value) value' =
   edit number parseFloat Color input
        (edit number parseFloat Color other settings value') value) ∧
  edit number parseFloat Color input
       (edit number parseFloat Color input settings value) value' =
  edit number parseFloat Color input settings value'.
Proof.
  destruct settings as [c a [sz|]]; destruct input, other; split; done.
Qed.

Lemma edit_commutes_witness :
  edit string (λ s, s) unit HeadWidth
       (edit string (λ s, s) unit HeadLength
             {| overrideColor := None; alpha := None; size := None |} "0.4")
       "0.5" =
  edit string (λ s, s) unit HeadLength
       (edit string (λ s, s) unit HeadWidth
             {| overrideColor := None; alpha := None; size := None |} "0.5")
       "0.4".
Proof.
  apply (proj1 (edit_commutes string unit (λ s, s) HeadLength HeadWidth
                  {| overrideColor := None; alpha := None; size := None |}
                  "0.4" "0.5")).
  discriminate.
Defined.

(** ** Autoscroll: what is written to the viewport *)

Lemma atBottom_idemp (div : option Div) :
  atBottom <$> (atBottom <$> div) = atBottom <$> div.
Proof. by destruct div. Qed.

Lemma onPagesUpdated_following_exact (s : Panel) :
  hasUserScrolled s = false →
  onPagesUpdated s =
  Normal (tt,
          {| hasUserScrolled := false; scrollByUpdate := true;
             divRef := atBottom <$> divRef s |},
          SetScrollByUpdate true :: CallScrollToBottom ::
          bottomWrite (divRef s)).
Proof. destruct s as [h b [div|]]; simpl; intros ->; reflexivity. Qed.

Lemma scrollToBottomAction_exact (s : Panel) :
  scrollToBottomAction s =
  Normal (tt,
          {| hasUserScrolled := false; scrollByUpdate := true;
             divRef := atBottom <$> divRef s |},
          SetHasUserScrolled false :: SetScrollByUpdate true ::
          CallScrollToBottom :: bottomWrite (divRef s)).
Proof. destruct s as [h b [div|]]; reflexivity. Qed.

Lemma listener_exact (s : Panel) :
  listener s =
  Normal (tt,
          {| hasUserScrolled := hasUserScrolled s || negb (scrollByUpdate s);
             scrollByUpdate := false;
             divRef := divRef s |},
          (if scrollByUpdate s then [] else [SetHasUserScrolled true]) ++
          [SetScrollByUpdate false]).
Proof. destruct s as [[] [] div]; reflexivity. Qed.

Lemma scrollWrites_bottomWrite (div : option Div) :
  scrollWrites (bottomWrite div) =
  match div with Some _ => 1%nat | None => 0%nat end.
Proof. by destruct div. Qed.

Lemma scrollCalls_bottomWrite (div : option Div) :
  scrollCalls (bottomWrite div) = 0%nat.
Proof. by destruct div. Qed.

(** While following, each arrival calls [scrollToBottom] once, and with a
    viewport each call assigns the scroll offset. *)
Lemma run_arrivals_writes (deliveries : list bool) (s : Panel) :
  hasUserScrolled s = false →
  ∃ s' log,
    run (concat (map arrival deliveries)) s = Normal (tt, s', log) ∧
    scrollCalls log = length deliveries ∧
    scrollWrites log = match divRef s with
                       | Some _ => length deliveries
                       | None => 0%nat
                       end ∧
    hasUserScrolled s' = false ∧
    divRef s' = match deliveries with
                | [] => divRef s
                | _ => atBottom <$> divRef s
                end.
Proof.
  revert s. induction deliveries as [|d ds IH]; intros s Hs.
  - exists s, []. split; [reflexivity |]. split; [reflexivity |].
    split; [by destruct (divRef s) |]. split; [exact Hs | reflexivity].
  - pose proof (onPagesUpdated_following_exact s Hs) as H1.
    simpl map. simpl concat.
    assert (Hrest : ∃ s1 log1,
              run (arrival d) s = Normal (tt, s1, log1) ∧
              scrollCalls log1 = 1%nat ∧
              scrollWrites log1 = match divRef s with
                                  | Some _ => 1%nat
                                  | None => 0%nat
                                  end ∧
              hasUserScrolled s1 = false ∧
              divRef s1 = atBottom <$> divRef s).
    { destruct d; simpl arrival.
      - rewrite (run_cons PagesUpdated _ _ _ _ H1).
        rewrite (run_cons Scroll [] _ _ _ (listener_exact _)).
        eexists _, _. split; [reflexivity |].
        destruct (divRef s); repeat split.
      - rewrite (run_cons PagesUpdated _ _ _ _ H1).
        eexists _, _. split; [reflexivity |].
        destruct (divRef s); repeat split. }
    destruct Hrest as (s1 & log1 & Hrun1 & Hc1 & Hw1 & Hs1 & Hd1).
    destruct (IH s1 Hs1) as (s' & log & Hrun & Hc & Hw & Hs' & Hd').
    exists s', (log1 ++ log). split; [| split; [| split; [| split]]].
    + clear -Hrun1 Hrun. revert Hrun1.
      generalize (arrival d). intros es. revert s log1.
      induction es as [|e es IHes]; intros s log1 Hrun1.
      * injection Hrun1 as -> <-. exact Hrun.
      * destruct (handle_summary e s) as (s2 & log2 & He & _).
        rewrite (run_cons e es s s2 log2 He) in Hrun1.
        change ((e :: es) ++ concat (map arrival ds))
          with (e :: (es ++ concat (map arrival ds))).
        rewrite (run_cons e _ s s2 log2 He).
        destruct (run es s2) as [[[[] s3] log3]|] eqn:Hes; [| done].
        injection Hrun1 as <- <-.
        rewrite (IHes s2 log3 Hes). by rewrite app_assoc.
    + rewrite scrollCalls_app, Hc1, Hc. reflexivity.
    + rewrite scrollWrites_app, Hw1, Hw, Hd1.
      by destruct (divRef s).
    + exact Hs'.
    + rewrite Hd', Hd1. destruct ds; [done | apply atBottom_idemp].
Qed.

(** While paused, and as long as the button is not clicked, nothing is
    called and nothing is written. *)
Lemma run_paused_quiet (es : list Event) (s : Panel) :
  hasUserScrolled s = true →
  ClickScrollToBottom ∉ es →
  ∃ s' log,
    run es s = Normal (tt, s', log) ∧
    scrollCalls log = 0%nat ∧ scrollWrites log = 0%nat ∧
    hasUserScrolled s' = true ∧ divRef s' = divRef s.
Proof.
  intros Hs Hes.
  destruct (run_paused es s Hs Hes) as (s' & log & Hrun & Hc & Hp & Hd).
  destruct (run_summary es s) as (s2 & log2 & Hrun2 & _ & _ & Hw).
  rewrite Hrun in Hrun2. injection Hrun2 as <- <-.
  exists s', log. repeat split; try done.
  rewrite Hw, Hc. by destruct (divRef s).
Qed.

(** C4: while Following, an arrival of new content sets the one-shot flag,
    then calls [scrollToBottom] exactly once, which with a viewport assigns
    [scrollTop := scrollHeight] (and without one assigns nothing), and the
    controller stays Following; over any number of arrivals, whether or not
    the scroll event each one causes is delivered, there is one call and,
    with a viewport, one assignment per arrival. A scroll event that finds
    the flag unset moves the controller to Paused without scrolling, and
    from there no event other than the button click calls [scrollToBottom],
    assigns the scroll offset, or leaves Paused. *)
Theorem autoscroll_following (s : Panel)
  (Hfollowing : controllerState s = Following) :
  (∀ div, divRef s = Some div →
     onPagesUpdated s =
     Normal (tt,
             {| hasUserScrolled := false; scrollByUpdate := true;
                divRef := Some (atBottom div) |},
             [SetScrollByUpdate true; CallScrollToBottom;
              SetScrollTop (scrollHeight div)])) ∧
  (divRef s = None →
     onPagesUpdated s =
     Normal (tt,
             {| hasUserScrolled := false; scrollByUpdate := true;
                divRef := None |},
             [SetScrollByUpdate true; CallScrollToBottom])) ∧
  (∀ deliveries : list bool, ∃ s' log,
     run (concat (map arrival deliveries)) s = Normal (tt, s', log) ∧
     scrollCalls log = length deliveries ∧
     scrollWrites log = match divRef s with
                        | Some _ => length deliveries
                        | None => 0%nat
                        end ∧
     controllerState s' = Following ∧
     divRef s' = match deliveries with
                 | [] => divRef s
                 | _ => atBottom <$> divRef s
                 end) ∧
  (scrollByUpdate s = false →
   ∃ s' log,
     listener s = Normal (tt, s', log) ∧ controllerState s' = Paused ∧
     scrollCalls log = 0%nat ∧ scrollWrites log = 0%nat ∧
     divRef s' = divRef s ∧
     ∀ es, ClickScrollToBottom ∉ es →
       ∃ s'' log',
         run es s' = Normal (tt, s'', log') ∧
         scrollCalls log' = 0%nat ∧ scrollWrites log' = 0%nat ∧
         controllerState s'' = Paused ∧ divRef s'' = divRef s).
Proof.
  apply controllerState_Following in Hfollowing.
  pose proof (onPagesUpdated_following_exact s Hfollowing) as Hpages.
  split; [| split; [| split]].
  - intros div Hdiv. by rewrite Hpages, Hdiv.
  - intros Hnone. by rewrite Hpages, Hnone.
  - intros deliveries.
    destruct (run_arrivals_writes deliveries s Hfollowing)
      as (s' & log & Hrun & Hc & Hw & Hs' & Hd).
    exists s', log. by rewrite controllerState_Following.
  - intros Hflag. pose proof (listener_exact s) as Hl.
    rewrite Hfollowing, Hflag in Hl. simpl in Hl.
    eexists _, _. split; [exact Hl |].
    split; [reflexivity |]. split; [reflexivity |]. split; [reflexivity |].
    split; [reflexivity |]. intros es Hes.
    destruct (run_paused_quiet es
                {| hasUserScrolled := true; scrollByUpdate := false;
                   divRef := divRef s |} eq_refl Hes)
      as (s'' & log' & Hrun & Hc & Hw & Hp & Hd).
    exists s'', log'. by rewrite controllerState_Paused.
Qed.

(** Three arrivals on a freshly mounted panel: three calls, three
    assignments, the viewport at the bottom, still Following. *)
Lemma autoscroll_following_witness :
  ∃ s' log,
    run (concat (map arrival [true; true; true]))
        (mountPanel (Some tallViewport)) = Normal (tt, s', log) ∧
    scrollCalls log = 3%nat ∧ scrollWrites log = 3%nat ∧
    controllerState s' = Following ∧
    divRef s' = Some (atBottom tallViewport).
Proof.
  exact (proj1 (proj2 (proj2 (autoscroll_following
                                (mountPanel (Some tallViewport)) eq_refl)))
               [true; true; true]).
Defined.

(** C5: the "Scroll to bottom" button is rendered exactly when the
    controller is Paused; from Paused, a run of events that ends Following
    contains a click on that button; and the click itself returns to
    Following, sets the one-shot flag and then calls [scrollToBottom]
    exactly once, which with a viewport assigns [scrollTop := scrollHeight]
    (and without one assigns nothing). *)
Theorem autoscroll_paused (s : Panel) :
  (is_Some (scrollToBottomButton s) ↔ controllerState s = Paused) ∧
  (controllerState s = Paused →
   (∀ es s' log,
      run es s = Normal (tt, s', log) →
      controllerState s' = Following → ClickScrollToBottom ∈ es) ∧
   (∀ div, divRef s = Some div →
      scrollToBottomAction s =
      Normal (tt,
              {| hasUserScrolled := false; scrollByUpdate := true;
                 divRef := Some (atBottom div) |},
              [SetHasUserScrolled false; SetScrollByUpdate true;
               CallScrollToBottom; SetScrollTop (scrollHeight div)])) ∧
   (divRef s = None →
      scrollToBottomAction s =
      Normal (tt,
              {| hasUserScrolled := false; scrollByUpdate := true;
                 divRef := None |},
              [SetHasUserScrolled false; SetScrollByUpdate true;
               CallScrollToBottom]))).
Proof.
  split.
  - unfold scrollToBottomButton, controllerState.
    destruct (hasUserScrolled s); split; try done.
  - intros Hpaused. apply controllerState_Paused in Hpaused.
    split; [| split].
    + intros es s' log Hrun Hs'.
      destruct (decide (ClickScrollToBottom ∈ es)) as [|Hno]; [done|].
      destruct (run_paused es s Hpaused Hno) as (s2 & log2 & Hrun2 & _ & Hp & _).
      rewrite Hrun in Hrun2. injection Hrun2 as -> _.
      apply controllerState_Following in Hs'. congruence.
    + intros div Hdiv. by rewrite scrollToBottomAction_exact, Hdiv.
    + intros Hnone. by rewrite scrollToBottomAction_exact, Hnone.
Qed.

Lemma autoscroll_paused_witness :
  is_Some (scrollToBottomButton
             {| hasUserScrolled := true; scrollByUpdate := false;
                divRef := Some tallViewport |}) ∧
  scrollToBottomAction
    {| hasUserScrolled := true; scrollByUpdate := false;
       divRef := Some tallViewport |} =
  Normal (tt,
          {| hasUserScrolled := false; scrollByUpdate := true;
             divRef := Some (atBottom tallViewport) |},
          [SetHasUserScrolled false; SetScrollByUpdate true;
           CallScrollToBottom; SetScrollTop 100]).
Proof.
  destruct (autoscroll_paused
              {| hasUserScrolled := true; scrollByUpdate := false;
                 divRef := Some tallViewport |}) as [Hbutton Hpaused].
  split.
  - apply Hbutton. reflexivity.
  - exact (proj1 (proj2 (Hpaused eq_refl)) tallViewport eq_refl).
Defined.

(** X10: the button click resumes following from any state: the click
    calls [scrollToBottom] once and each of the arrivals after it once
    more; with a viewport every one of these calls assigns the scroll
    offset and the viewport ends at the bottom, without one nothing is
    assigned; the controller is Following at the end. *)
Theorem click_resumes_following (s : Panel) (deliveries : list bool) :
  ∃ s' log,
    run (ClickScrollToBottom :: concat (map arrival deliveries)) s
      = Normal (tt, s', log) ∧
    scrollCalls log = S (length deliveries) ∧
    scrollWrites log = match divRef s with
                       | Some _ => S (length deliveries)
                       | None => 0%nat
                       end ∧
    controllerState s' = Following ∧
    divRef s' = atBottom <$> divRef s.
Proof.
  rewrite (run_cons ClickScrollToBottom _ s _ _ (scrollToBottomAction_exact s)).
  destruct (run_arrivals_writes deliveries
              {| hasUserScrolled := false; scrollByUpdate := true;
                 divRef := atBottom <$> divRef s |} eq_refl)
    as (s' & log & -> & Hc & Hw & Hs' & Hd).
  eexists _, _. split; [reflexivity |]. simpl divRef in *.
  split; [| split; [| split]].
  - change (SetHasUserScrolled false :: SetScrollByUpdate true ::
            CallScrollToBottom :: bottomWrite (divRef s))
      with ([SetHasUserScrolled false; SetScrollByUpdate true;
             CallScrollToBottom] ++ bottomWrite (divRef s)).
    rewrite !scrollCalls_app, scrollCalls_bottomWrite, Hc. reflexivity.
  - change (SetHasUserScrolled false :: SetScrollByUpdate true ::
            CallScrollToBottom :: bottomWrite (divRef s))
      with ([SetHasUserScrolled false; SetScrollByUpdate true;
             CallScrollToBottom] ++ bottomWrite (divRef s)).
    rewrite !scrollWrites_app, scrollWrites_bottomWrite, Hw.
    by destruct (divRef s).
  - by apply controllerState_Following.
  - rewrite Hd. destruct deliveries; [done | apply atBottom_idemp].
Qed.
